(** * Point geometry (native/geometry.h, native/main_geometry.c)

    A shallow embedding of the four point operations and of the
    demonstration [main], over the IEEE-754 binary64 model of the standard
    library ([SpecFloat], instantiated at precision 53 and exponent bound
    1024).

    Modelling conventions.
    - A C [double] is a [spec_float].  In the first part all NaNs are one
      datum [S754_nan]: equality of two doubles there is equality of
      IEEE-754 data, which is equality of bits for every number and says
      no more of two NaNs than that both are NaNs.  The last part
      ([Bits]) refines this with the sign bit of a NaN, for the properties
      that compare or print NaN results; the payload of a NaN is never
      represented.
    - Every arithmetic operator is evaluated in binary64 with rounding to
      nearest, ties to even, one rounding per operator (no excess precision,
      no fused multiply-add).
    - The standard output stream is the text written to it so far; [printf]
      appends to it and its return value is ignored, as the source does. *)

From Stdlib Require Import ZArith Bool List Lia.
From Stdlib Require Import Ascii String DecimalString.
From Stdlib Require Import SpecFloat.
Import ListNotations.

Local Open Scope string_scope.
Local Open Scope Z_scope.

(** ** binary64 *)

Module Double.

Definition prec : Z := 53.
Definition emax : Z := 1024.

Definition double : Type := spec_float.

(** The values of [spec_float] that are binary64 numbers. *)
Definition is_double (a : double) : bool := valid_binary prec emax a.

Definition add : double -> double -> double := SFadd prec emax.
Definition sub : double -> double -> double := SFsub prec emax.
Definition mul : double -> double -> double := SFmul prec emax.
Definition sqrt : double -> double := SFsqrt prec emax.
Definition neg : double -> double := SFopp.

(** Conversion of a C [int] to [double] (usual arithmetic conversions). *)
Definition of_int (z : Z) : double := binary_normalize prec emax z 0 false.

(** The double nearest to [m * 2^e]: the value of a decimal constant such
    as [2.5] (which is [5 * 2^-1]). *)
Definition of_dyadic (m e : Z) : double := binary_normalize prec emax m e false.

Definition pzero : double := S754_zero false.
Definition pinf : double := S754_infinity false.
Definition nan : double := S754_nan.

Definition is_nan (a : double) : bool :=
  match a with S754_nan => true | _ => false end.

Definition is_inf (a : double) : bool :=
  match a with S754_infinity _ => true | _ => false end.

Definition is_finite (a : double) : bool :=
  match a with S754_zero _ | S754_finite _ _ _ => true | _ => false end.

Definition signbit (a : double) : bool :=
  match a with
  | S754_zero s | S754_infinity s | S754_finite s _ _ => s
  | S754_nan => false
  end.

End Double.

Import Double.

(** ** geometry.h *)

Definition ORIGIN_X : Z := 0.
Definition ORIGIN_Y : Z := 0.

Record Point : Type := mkPoint { x : double; y : double }.

(** ** main_geometry.c: the pure operations *)

Definition createPoint (x0 y0 : double) : Point :=
  {| x := x0; y := y0 |}.

Definition distanceToOrigin (p : Point) : double :=
  let deltaX := sub p.(x) (of_int ORIGIN_X) in
  let deltaY := sub p.(y) (of_int ORIGIN_Y) in
  sqrt (add (mul deltaX deltaX) (mul deltaY deltaY)).

Definition addPoints (p1 p2 : Point) : Point :=
  {| x := add p1.(x) p2.(x); y := add p1.(y) p2.(y) |}.

(** The constants of [main]. *)
Definition c_3_0 : double := of_dyadic 3 0.
Definition c_4_0 : double := of_dyadic 4 0.
Definition c_1_0 : double := of_dyadic 1 0.
Definition c_2_5 : double := of_dyadic 5 (-1).
Definition c_2_0 : double := of_dyadic 2 0.
Definition c_6_5 : double := of_dyadic 13 (-1).
Definition c_5_0 : double := of_dyadic 5 0.

(** ** Formatted output

    [printf] is the C library's; what [main_geometry.c] uses of it is
    modelled here after the C standard (7.21.6.1): ordinary characters are
    copied, and a [%.Nf] directive (one digit [N]) prints its [double]
    argument in the style [[-]ddd.ddd] with [N] digits after the
    decimal point, the value correctly rounded to that many digits (ties to
    even, as glibc and Apple's libc do), an infinity as [[-]inf] and a NaN
    as [nan] (the sign of a NaN, which glibc prints, is not represented
    here: [Bits.fmt_f] below prints it). *)

Definition nl : string := String "010"%char EmptyString.

Definition decimal (n : Z) : string :=
  NilZero.string_of_uint (N.to_uint (Z.to_N n)).

Definition digit (d : Z) : ascii := ascii_of_nat (48 + Z.to_nat d).

Definition sign_text (s : bool) : string := if s then "-" else "".

(** The integer nearest to [m * 2^e * 10^P], ties to even. *)
Definition scaled_round (P : nat) (m : positive) (e : Z) : Z :=
  let num := Zpos m * 10 ^ Z.of_nat P in
  match e with
  | Zneg k =>
      let d := 2 ^ Zpos k in
      let q := num / d in
      let r := num mod d in
      match 2 * r ?= d with
      | Lt => q
      | Gt => q + 1
      | Eq => if Z.even q then q else q + 1
      end
  | _ => num * 2 ^ e
  end.

(** The last [P] decimal digits of [r], most significant first. *)
Fixpoint frac_digits (P : nat) (r : Z) : string :=
  match P with
  | O => ""
  | S P' => frac_digits P' (r / 10) ++ String (digit (r mod 10)) ""
  end.

(** [n / 10^P] written with [P] digits after the decimal point. *)
Definition fixed (P : nat) (n : Z) : string :=
  let scale := 10 ^ Z.of_nat P in
  decimal (n / scale)
  ++ match P with
     | O => ""
     | S _ => "." ++ frac_digits P (n mod scale)
     end.

(** The conversion [%.Pf]. *)
Definition fmt_f (P : nat) (a : double) : string :=
  match a with
  | S754_nan => "nan"
  | S754_infinity s => sign_text s ++ "inf"
  | S754_zero s => sign_text s ++ fixed P 0
  | S754_finite s m e => sign_text s ++ fixed P (scaled_round P m e)
  end.

Definition is_digit (c : ascii) : bool :=
  (48 <=? nat_of_ascii c)%nat && (nat_of_ascii c <=? 57)%nat.

(** The text a format string produces from its arguments.  A directive with
    no argument left (undefined in C; the source has none) prints nothing. *)
Fixpoint format (fmt : string) (args : list double) : string :=
  match fmt with
  | EmptyString => EmptyString
  | String c1 (String c2 (String c3 (String c4 rest)) as tl) =>
      if Ascii.eqb c1 "%" && Ascii.eqb c2 "." && is_digit c3 && Ascii.eqb c4 "f"
      then match args with
           | a :: args' => fmt_f (nat_of_ascii c3 - 48) a ++ format rest args'
           | [] => format rest []
           end
      else String c1 (format tl args)
  | String c1 tl => String c1 (format tl args)
  end.

(** *** The output stream *)

Definition stdout : Type := string.

Definition IO (A : Type) : Type := stdout -> A * stdout.

Definition ret {A : Type} (a : A) : IO A := fun out => (a, out).

Definition bind {A B : Type} (c : IO A) (k : A -> IO B) : IO B :=
  fun out => let (a, out') := c out in k a out'.

Notation "c ;; k" := (bind c (fun _ => k))
  (at level 61, right associativity).

(** [printf] appends the formatted text and returns its length. *)
Definition printf (fmt : string) (args : list double) : IO Z :=
  fun out =>
    let text := format fmt args in
    (Z.of_nat (String.length text), out ++ text).

(** ** main_geometry.c: the operations with output *)

Definition displayPoint (p : Point) : IO unit :=
  printf ("Point(x: %.2f, y: %.2f)" ++ nl) [p.(x); p.(y)] ;;
  ret tt.

Definition main : IO Z :=
  let p1 := createPoint c_3_0 c_4_0 in
  let p2 := createPoint (neg c_1_0) c_2_5 in
  printf "Point p1: " [] ;;
  displayPoint p1 ;;
  printf "Point p2: " [] ;;
  displayPoint p2 ;;
  let dist := distanceToOrigin p1 in
  printf ("Distance of p1 from origin: %.2f" ++ nl) [dist] ;;
  let sumPoint := addPoints p1 p2 in
  printf "Sum of p1 and p2: " [] ;;
  displayPoint sumPoint ;;
  let dist := distanceToOrigin sumPoint in
  printf ("Distance of sumPoint from origin: %.2f" ++ nl) [dist] ;;
  ret 0%Z.

(** ** Facts about binary64 arithmetic *)

Example constants_are_doubles :
  forallb is_double [c_3_0; c_4_0; neg c_1_0; c_2_5; c_2_0; c_6_5; c_5_0] = true.
Proof. vm_compute. reflexivity. Qed.

Example constants_values :
  c_3_0 = S754_finite false 6755399441055744 (-51)
  /\ c_2_5 = S754_finite false 5629499534213120 (-51)
  /\ neg c_1_0 = S754_finite true 4503599627370496 (-52).
Proof. repeat split. Qed.

Section Arith.

Lemma sub_pzero (a : double) : sub a pzero = a.
Proof. destruct a as [[|]|[|]| |s m e]; reflexivity. Qed.

Lemma of_int_0 : of_int 0 = pzero.
Proof. reflexivity. Qed.

Lemma add_comm (a b : double) : add a b = add b a.
Proof.
  destruct a as [[|]|[|]| |sa ma ea], b as [[|]|[|]| |sb mb eb];
    try reflexivity.
  unfold add, SFadd.
  rewrite (Z.min_comm eb ea).
  rewrite (Z.add_comm (cond_Zopp sb _)).
  reflexivity.
Qed.

Lemma add_nan_r (a : double) : add a nan = nan.
Proof. now destruct a. Qed.


End Arith.

(** *** Rounding keeps the sign

    [binary_round_aux s m e l] rounds the non-negative significand [m]; its
    result is a zero, a finite number or an infinity of sign [s], never a
    NaN. *)

Definition signed (s : bool) (a : double) : Prop :=
  is_nan a = false /\ signbit a = s.

Section RoundSign.

Lemma iter_pos_inv {A : Type} (P : A -> Prop) (f : A -> A) :
  (forall a, P a -> P (f a)) ->
  forall n a, P a -> P (iter_pos f n a).
Proof.
  intros Hf. induction n as [n IH|n IH|]; intros a Ha; simpl; auto.
Qed.

Lemma shr_1_nonneg (mrs : shr_record) :
  0 <= shr_m mrs -> 0 <= shr_m (shr_1 mrs).
Proof.
  destruct mrs as [m r s]. simpl.
  destruct m as [|[q|q|]|q]; simpl; lia.
Qed.

Lemma shr_nonneg (mrs : shr_record) (e n : Z) :
  0 <= shr_m mrs -> 0 <= shr_m (fst (shr mrs e n)).
Proof.
  intros H. destruct n as [|q|q]; simpl; auto.
  apply (iter_pos_inv (fun r => 0 <= shr_m r)); auto using shr_1_nonneg.
Qed.

Lemma shr_record_of_loc_m (m : Z) (l : location) :
  shr_m (shr_record_of_loc m l) = m.
Proof. destruct l as [|[| |]]; reflexivity. Qed.

Lemma shr_fexp_nonneg (m e : Z) (l : location) :
  0 <= m -> 0 <= shr_m (fst (shr_fexp prec emax m e l)).
Proof.
  intros H. unfold shr_fexp. apply shr_nonneg.
  now rewrite shr_record_of_loc_m.
Qed.

Lemma round_nearest_even_nonneg (m : Z) (l : location) :
  0 <= m -> 0 <= round_nearest_even m l.
Proof.
  intros H. destruct l as [|[| |]]; simpl; try lia.
  destruct (Z.even m); lia.
Qed.

Lemma binary_round_aux_signed (s : bool) (m e : Z) (l : location) :
  0 <= m -> signed s (binary_round_aux prec emax s m e l).
Proof.
  intros Hm. unfold binary_round_aux.
  pose proof (shr_fexp_nonneg m e l Hm) as H1.
  destruct (shr_fexp prec emax m e l) as [mrs1 e1]. simpl in H1.
  pose proof (shr_fexp_nonneg _ e1 loc_Exact
                (round_nearest_even_nonneg _ (loc_of_shr_record mrs1) H1)) as H2.
  destruct (shr_fexp prec emax _ e1 loc_Exact) as [mrs2 e2]. simpl in H2.
  destruct (shr_m mrs2) as [|q|q].
  - split; reflexivity.
  - destruct (e2 <=? emax - prec); split; reflexivity.
  - lia.
Qed.

(** A square is a NaN only when its argument is, and is never negative. *)
Lemma mul_self_signed (a : double) :
  is_nan a = false -> signed false (mul a a).
Proof.
  destruct a as [s|s| |s m e]; intros Ha; try discriminate.
  - split; [reflexivity | simpl; now destruct s].
  - split; [reflexivity | simpl; now destruct s].
  - unfold mul, SFmul. rewrite xorb_nilpotent.
    apply binary_round_aux_signed. lia.
Qed.

Lemma add_pinf_l (a : double) : signed false a -> add pinf a = pinf.
Proof.
  destruct a as [s|s| |s m e]; intros [Hn Hs]; simpl in *;
    try discriminate; subst; reflexivity.
Qed.

Lemma add_pinf_r (a : double) : signed false a -> add a pinf = pinf.
Proof. intros H. rewrite add_comm. now apply add_pinf_l. Qed.

Lemma mul_self_inf (a : double) : is_inf a = true -> mul a a = pinf.
Proof. destruct a as [s|[|]| |s m e]; intros H; try discriminate; reflexivity. Qed.

End RoundSign.

(** [distanceToOrigin] without the subtraction of the origin. *)
Lemma distanceToOrigin_unfold (p : Point) :
  distanceToOrigin p = sqrt (add (mul p.(x) p.(x)) (mul p.(y) p.(y))).
Proof.
  unfold distanceToOrigin, ORIGIN_X, ORIGIN_Y.
  now rewrite of_int_0, !sub_pzero.
Qed.

(** ** The pure operations: claims *)

(** C4. [createPoint x0 y0] is the point whose [x] field is [x0] and whose
    [y] field is [y0], for every pair of doubles (zeros of either sign,
    infinities and NaN included): construction stores the two numbers
    unchanged. *)
Theorem createPoint_fields (x0 y0 : double) :
  (createPoint x0 y0).(x) = x0 /\ (createPoint x0 y0).(y) = y0.
Proof. split; reflexivity. Qed.

(** C1. For every point [p], [distanceToOrigin p] is the binary64 square
    root of [p.x*p.x + p.y*p.y], each operator rounded once: subtracting
    the origin [(double)0] changes no coordinate, not even a negative
    zero. *)
Theorem distanceToOrigin_formula (p : Point) :
  distanceToOrigin p = sqrt (add (mul p.(x) p.(x)) (mul p.(y) p.(y))).
Proof. apply distanceToOrigin_unfold. Qed.

(** C3. [addPoints p1 p2] is the point [(p1.x + p2.x, p1.y + p2.y)] under
    binary64 addition, and adding [(3, 4)] and [(-1, 2.5)] gives
    [(2, 6.5)]. *)
Theorem addPoints_fields :
  (forall p1 p2 : Point,
      addPoints p1 p2 = createPoint (add p1.(x) p2.(x)) (add p1.(y) p2.(y)))
  /\ addPoints (createPoint c_3_0 c_4_0) (createPoint (neg c_1_0) c_2_5)
     = createPoint c_2_0 c_6_5.
Proof. split; [reflexivity | vm_compute; reflexivity]. Qed.


(** C6. Special values of [distanceToOrigin]: at the origin (zeros of
    either sign) the result is [+0.0]; with a NaN coordinate the result is
    NaN; with an infinite coordinate and no NaN coordinate the result is
    [+infinity]. *)
Theorem distanceToOrigin_special :
  (forall sx sy : bool,
      distanceToOrigin (createPoint (S754_zero sx) (S754_zero sy)) = pzero)
  /\ (forall p : Point,
         is_nan p.(x) || is_nan p.(y) = true -> distanceToOrigin p = nan)
  /\ (forall p : Point,
         is_inf p.(x) || is_inf p.(y) = true ->
         is_nan p.(x) || is_nan p.(y) = false ->
         distanceToOrigin p = pinf).
Proof.
  repeat split.
  - intros [|] [|]; reflexivity.
  - intros [a b] H. rewrite distanceToOrigin_unfold. simpl in *.
    apply orb_prop in H. destruct H as [H|H].
    + destruct a; try discriminate. reflexivity.
    + destruct b; try discriminate. now rewrite add_nan_r.
  - intros [a b] Hi Hn. rewrite distanceToOrigin_unfold. simpl in *.
    apply orb_false_elim in Hn. destruct Hn as [Hna Hnb].
    apply orb_true_elim in Hi. destruct Hi as [Hi|Hi].
    + rewrite (mul_self_inf a Hi), add_pinf_l by now apply mul_self_signed.
      reflexivity.
    + rewrite (mul_self_inf b Hi), add_pinf_r by now apply mul_self_signed.
      reflexivity.
Qed.

Lemma distanceToOrigin_special_witness :
  distanceToOrigin (createPoint nan c_3_0) = nan
  /\ distanceToOrigin (createPoint c_4_0 (S754_infinity true)) = pinf.
Proof.
  destruct distanceToOrigin_special as (_ & Hnan & Hinf).
  split; [apply Hnan | apply Hinf]; reflexivity.
Defined.

(** C7. The distance of [(3, 4)] from the origin is exactly [5.0]. *)
Theorem distanceToOrigin_3_4 :
  distanceToOrigin (createPoint c_3_0 c_4_0) = c_5_0.
Proof. vm_compute. reflexivity. Qed.


(** ** Output *)

(** [emits c a t]: from any state of the stream, [c] returns [a] and
    appends exactly [t]. *)
Definition emits {A : Type} (c : IO A) (a : A) (t : string) : Prop :=
  forall out : stdout, c out = (a, out ++ t).

Section Emits.

Lemma app_assoc (s1 s2 s3 : string) : (s1 ++ s2) ++ s3 = s1 ++ s2 ++ s3.
Proof. induction s1 as [|c s1 IH]; simpl; [reflexivity | now rewrite IH]. Qed.

Lemma app_nil_r (s1 : string) : s1 ++ "" = s1.
Proof. induction s1 as [|c s1 IH]; simpl; [reflexivity | now rewrite IH]. Qed.

Lemma emits_ret {A : Type} (a : A) : emits (ret a) a "".
Proof. intros out. unfold ret. now rewrite app_nil_r. Qed.

Lemma emits_bind {A B : Type} (c : IO A) (k : A -> IO B) a b t1 t2 :
  emits c a t1 -> emits (k a) b t2 -> emits (bind c k) b (t1 ++ t2).
Proof.
  intros Hc Hk out. unfold bind. rewrite Hc, Hk. now rewrite app_assoc.
Qed.

Lemma emits_printf (fmt : string) (args : list double) :
  emits (printf fmt args)
        (Z.of_nat (String.length (format fmt args))) (format fmt args).
Proof. intros out. reflexivity. Qed.

Lemma emits_text {A : Type} (c : IO A) a t t' :
  emits c a t -> t = t' -> emits c a t'.
Proof. now intros H <-. Qed.

Lemma emits_displayPoint (p : Point) :
  emits (displayPoint p) tt
        ("Point(x: " ++ fmt_f 2 p.(x) ++ ", y: " ++ fmt_f 2 p.(y) ++ ")" ++ nl).
Proof. intros out. reflexivity. Qed.

End Emits.

(** *** Rounding to [P] decimals *)

(** [n] is a non-negative integer nearest to [|a| * 10^P], for a finite
    [a]: twice the distance is at most one, with [|a| = m * 2^e] cleared of
    its denominator. *)
Definition nearest_scaled (P : nat) (a : double) (n : Z) : Prop :=
  match a with
  | S754_zero _ => n = 0
  | S754_finite _ m e =>
      0 <= n
      /\ 2 * Z.abs (Zpos m * 10 ^ Z.of_nat P * 2 ^ Z.max e 0
                    - n * 2 ^ Z.max (- e) 0)
         <= 2 ^ Z.max (- e) 0
  | _ => False
  end.

Section Decimals.

Lemma scaled_round_nearest (P : nat) (s : bool) (m : positive) (e : Z) :
  nearest_scaled P (S754_finite s m e) (scaled_round P m e).
Proof.
  unfold nearest_scaled, scaled_round.
  assert (Hnum : 0 < Zpos m * 10 ^ Z.of_nat P)
    by (apply Z.mul_pos_pos; [lia | apply Z.pow_pos_nonneg; lia]).
  set (num := Zpos m * 10 ^ Z.of_nat P) in *.
  destruct e as [|k|k].
  - change (Z.max 0 0) with 0. change (Z.max (- 0) 0) with 0.
    rewrite Z.pow_0_r, !Z.mul_1_r, Z.sub_diag. simpl. lia.
  - rewrite (Z.max_l (Zpos k) 0), (Z.max_r (- Zpos k) 0) by lia.
    assert (0 < 2 ^ Zpos k) by (apply Z.pow_pos_nonneg; lia).
    rewrite Z.pow_0_r. split; [nia | ].
    replace (num * 2 ^ Zpos k - num * 2 ^ Zpos k * 1) with 0 by ring.
    simpl. lia.
  - rewrite (Z.max_r (Zneg k) 0), (Z.max_l (- Zneg k) 0) by lia.
    change (- Zneg k) with (Zpos k). rewrite Z.pow_0_r.
    assert (Hd : 0 < 2 ^ Zpos k) by (apply Z.pow_pos_nonneg; lia).
    set (d := 2 ^ Zpos k) in *.
    pose proof (Z.div_mod num d ltac:(lia)) as Hdm.
    pose proof (Z.mod_pos_bound num d Hd) as Hr.
    assert (Hq : 0 <= num / d) by (apply Z.div_pos; lia).
    set (q := num / d) in *. set (r := num mod d) in *.
    destruct (Z.compare_spec (2 * r) d) as [Hc|Hc|Hc].
    + destruct (Z.even q); split; lia.
    + split; lia.
    + split; lia.
Qed.

Lemma fixed_2 (n : Z) :
  fixed 2 n
  = decimal (n / 100)
    ++ "." ++ String (digit (n mod 100 / 10)) (String (digit (n mod 10)) "").
Proof.
  unfold fixed. change (10 ^ Z.of_nat 2) with 100.
  assert (H1 : n mod 100 / 10 mod 10 = n mod 100 / 10).
  { pose proof (Z.mod_pos_bound n 100 ltac:(lia)).
    apply Z.mod_small. split.
    - apply Z.div_pos; lia.
    - apply Z.div_lt_upper_bound; lia. }
  assert (H2 : (n mod 100) mod 10 = n mod 10).
  { apply Z.mod_mod_divide. now exists 10. }
  cbn [frac_digits append]. now rewrite H1, H2.
Qed.

(** A finite double printed by [%.2f]: an optional minus sign, the
    integer part, a point and exactly two digits, for the hundredth
    nearest to the value. *)
Lemma fmt_f_2_finite (a : double) :
  is_finite a = true ->
  exists n : Z,
    nearest_scaled 2 a n
    /\ fmt_f 2 a
       = sign_text (signbit a) ++ decimal (n / 100) ++ "."
         ++ String (digit (n mod 100 / 10)) (String (digit (n mod 10)) "").
Proof.
  destruct a as [s|s| |s m e]; intros H; try discriminate.
  - exists 0. split; [reflexivity | ]. simpl. now rewrite fixed_2.
  - exists (scaled_round 2 m e). split.
    + apply scaled_round_nearest.
    + simpl. now rewrite fixed_2.
Qed.

End Decimals.

(** ** The operations with output: claims *)

(** The text [main] writes. *)
Definition transcript : string :=
  "Point p1: Point(x: 3.00, y: 4.00)" ++ nl
  ++ "Point p2: Point(x: -1.00, y: 2.50)" ++ nl
  ++ "Distance of p1 from origin: 5.00" ++ nl
  ++ "Sum of p1 and p2: Point(x: 2.00, y: 6.50)" ++ nl
  ++ "Distance of sumPoint from origin: 6.80" ++ nl.

Lemma emits_main : emits main 0 transcript.
Proof.
  unfold main. eapply emits_text.
  - repeat (eapply emits_bind;
            [first [apply emits_printf | apply emits_displayPoint] | ]).
    apply emits_ret.
  - vm_compute. reflexivity.
Qed.

(** C8. [main] returns the exit code [0], whatever the output stream held
    when it started: it has no other result. *)
Theorem main_exit_code (out : stdout) : fst (main out) = 0.
Proof. now rewrite emits_main. Qed.

(** * Further properties of the operations *)

(** ** Sign and NaN of a distance *)

Definition nzero : double := S754_zero true.

Definition abs : double -> double := SFabs.

Section DistanceSign.

Lemma binary_normalize_pos_signed (m : positive) (e : Z) :
  signed false (binary_normalize prec emax (Zpos m) e false).
Proof.
  unfold binary_normalize, binary_round.
  destruct (shl_align m e _) as [mz ez].
  apply binary_round_aux_signed. lia.
Qed.

Lemma add_signed (a b : double) :
  signed false a -> signed false b -> signed false (add a b).
Proof.
  destruct a as [sa|sa| |sa ma ea]; intros [Hna Hsa]; try discriminate;
    destruct b as [sb|sb| |sb mb eb]; intros [Hnb Hsb]; try discriminate;
    simpl in Hsa, Hsb; subst; try (split; reflexivity).
  unfold add, SFadd, cond_Zopp.
  destruct (shl_align ma ea _) as [ma' ea'], (shl_align mb eb _) as [mb' eb'].
  cbn [fst]. change (Zpos ma' + Zpos mb') with (Zpos (ma' + mb')).
  apply binary_normalize_pos_signed.
Qed.

Lemma sqrt_signed (a : double) : signed false a -> signed false (sqrt a).
Proof.
  destruct a as [s|s| |s m e]; intros [Hn Hs]; try discriminate;
    simpl in Hs; subst; try (split; reflexivity).
  unfold sqrt, SFsqrt, SFsqrt_core_binary.
  match goal with
  | |- context [Z.sqrtrem ?n] =>
      pose proof (Z.sqrtrem_sqrt n) as Hq; pose proof (Z.sqrt_nonneg n) as Hp;
      destruct (Z.sqrtrem n) as [q r]
  end.
  simpl in Hq. subst q.
  apply binary_round_aux_signed. exact Hp.
Qed.

Lemma mul_nan_self (a : double) : is_nan a = true -> mul a a = nan.
Proof. destruct a; intros H; try discriminate; reflexivity. Qed.


End DistanceSign.

(** X1. A distance is a NaN exactly when a coordinate is one; otherwise it is
    [+0.0], a positive finite number or [+infinity]: its sign bit is never
    set. *)
Theorem distanceToOrigin_nan_sign (p : Point) :
  is_nan (distanceToOrigin p) = is_nan p.(x) || is_nan p.(y)
  /\ signbit (distanceToOrigin p) = false.
Proof.
  rewrite distanceToOrigin_unfold.
  destruct (is_nan p.(x)) eqn:Hx.
  - rewrite (mul_nan_self _ Hx). split; reflexivity.
  - destruct (is_nan p.(y)) eqn:Hy.
    + rewrite (mul_nan_self _ Hy), add_nan_r. split; reflexivity.
    + destruct (sqrt_signed _ (add_signed _ _ (mul_self_signed _ Hx)
                                         (mul_self_signed _ Hy))) as [Hn Hs].
      now rewrite Hn, Hs.
Qed.


(** ** Neutral element and opposite of a point *)

Section AddZero.

Lemma add_nzero_r (a : double) : add a nzero = a.
Proof. destruct a as [[|]|[|]| |s m e]; reflexivity. Qed.

Lemma add_pzero_r (a : double) : a <> nzero -> add a pzero = a.
Proof.
  destruct a as [[|]|[|]| |s m e]; intros H; try reflexivity.
  now elim H.
Qed.

Lemma add_neg_finite (s : bool) (m : positive) (e : Z) :
  add (S754_finite s m e) (neg (S754_finite s m e)) = pzero.
Proof.
  unfold add, neg, SFadd, SFopp, shl_align.
  rewrite Z.min_id, Z.sub_diag. cbn [fst].
  replace (cond_Zopp s (Zpos m) + cond_Zopp (negb s) (Zpos m)) with 0
    by (destruct s; simpl; now rewrite Z.pos_sub_diag).
  reflexivity.
Qed.

Lemma add_neg (a : double) :
  add a (neg a) = if is_finite a then pzero else nan.
Proof.
  destruct a as [[|]|[|]| |s m e]; try reflexivity.
  apply add_neg_finite.
Qed.

End AddZero.

(** X5. The point [(-0.0, -0.0)] is neutral for [addPoints] on either side.
    The origin [(+0.0, +0.0)] is neutral for every point with no
    negative-zero coordinate, and turns a negative-zero coordinate into
    [+0.0]. *)
Theorem addPoints_neutral (p : Point) :
  addPoints p (createPoint nzero nzero) = p
  /\ addPoints (createPoint nzero nzero) p = p
  /\ (p.(x) <> nzero -> p.(y) <> nzero ->
      addPoints p (createPoint pzero pzero) = p)
  /\ addPoints (createPoint nzero nzero) (createPoint pzero pzero)
     = createPoint pzero pzero.
Proof.
  destruct p as [a b]. unfold addPoints, createPoint. cbn [x y].
  repeat split.
  - now rewrite !add_nzero_r.
  - now rewrite !(add_comm nzero), !add_nzero_r.
  - intros Ha Hb. now rewrite !add_pzero_r.
Qed.

Lemma addPoints_neutral_witness :
  addPoints (createPoint c_3_0 (neg c_1_0)) (createPoint pzero pzero)
  = createPoint c_3_0 (neg c_1_0).
Proof.
  destruct (addPoints_neutral (createPoint c_3_0 (neg c_1_0))) as (_ & _ & H & _).
  apply H; discriminate.
Defined.

(** X6. Adding to a point the point of the negated coordinates gives [+0.0] in
    each coordinate that is finite (never [-0.0]), and NaN in each
    coordinate that is an infinity or a NaN. *)
Theorem addPoints_opposite (p : Point) :
  addPoints p (createPoint (neg p.(x)) (neg p.(y)))
  = createPoint (if is_finite p.(x) then pzero else nan)
                (if is_finite p.(y) then pzero else nan).
Proof.
  unfold addPoints, createPoint. cbn [x y]. now rewrite !add_neg.
Qed.

(** X7. [addPoints] is not associative: rounding after each addition makes the
    grouping matter (with [2^53], [1] and [1] in the first coordinate, the
    left grouping loses both units). *)
Theorem addPoints_not_assoc :
  exists p q r : Point,
    addPoints (addPoints p q) r <> addPoints p (addPoints q r)
    /\ forallb is_double [p.(x); p.(y); q.(x); q.(y); r.(x); r.(y)] = true.
Proof.
  exists (createPoint (of_dyadic 1 53) pzero),
         (createPoint c_1_0 pzero), (createPoint c_1_0 pzero).
  split; [vm_compute; discriminate | vm_compute; reflexivity].
Qed.

(** ** The run of [main] *)

(** X10. From any state of the output stream, [main] appends exactly the five
    lines of [transcript] (the two points, the distance [5.00], the sum
    [(2.00, 6.50)] and its distance [6.80]) and returns [0]. *)
Theorem main_transcript (out : stdout) : main out = (0, out ++ transcript).
Proof. apply emits_main. Qed.

(** ** One line per point *)

Fixpoint no_newline (s : string) : bool :=
  match s with
  | EmptyString => true
  | String c s' => negb (Ascii.eqb c "010") && no_newline s'
  end.

Section OneLine.

Lemma no_newline_app (s1 s2 : string) :
  no_newline (s1 ++ s2) = no_newline s1 && no_newline s2.
Proof.
  induction s1 as [|c s1 IH]; simpl; [reflexivity | ].
  now rewrite IH, andb_assoc.
Qed.

Lemma no_newline_uint (d : Decimal.uint) :
  no_newline (NilEmpty.string_of_uint d) = true.
Proof. induction d; simpl; auto. Qed.

Lemma no_newline_decimal (n : Z) : no_newline (decimal n) = true.
Proof.
  unfold decimal, NilZero.string_of_uint.
  destruct (N.to_uint (Z.to_N n)) eqn:E; try reflexivity;
    rewrite <- E; apply no_newline_uint.
Qed.

Lemma digit_not_newline (d : Z) :
  0 <= d < 10 -> Ascii.eqb (digit d) "010" = false.
Proof.
  intros H.
  assert (d = 0 \/ d = 1 \/ d = 2 \/ d = 3 \/ d = 4 \/ d = 5 \/ d = 6
          \/ d = 7 \/ d = 8 \/ d = 9) as Hd by lia.
  repeat (destruct Hd as [->|Hd]; [reflexivity | ]). now subst.
Qed.

Lemma no_newline_frac_digits (P : nat) (r : Z) :
  no_newline (frac_digits P r) = true.
Proof.
  revert r. induction P as [|P IH]; intros r; [reflexivity | ].
  cbn [frac_digits]. rewrite no_newline_app, IH. cbn [no_newline andb].
  rewrite digit_not_newline by (apply Z.mod_pos_bound; lia).
  reflexivity.
Qed.

Lemma no_newline_fixed (P : nat) (n : Z) : no_newline (fixed P n) = true.
Proof.
  unfold fixed. rewrite no_newline_app, no_newline_decimal.
  destruct P as [|P]; [reflexivity | ].
  rewrite no_newline_app, no_newline_frac_digits. reflexivity.
Qed.

Lemma no_newline_fmt_f (P : nat) (a : double) : no_newline (fmt_f P a) = true.
Proof.
  destruct a as [s|s| |s m e]; cbn [fmt_f]; try reflexivity;
    rewrite no_newline_app, ?no_newline_fixed; now destruct s.
Qed.

End OneLine.

(** X9. [displayPoint] writes exactly one line whatever the coordinates are
    (finite, infinite or NaN): the text it appends is a line without any
    newline character, starting with [Point(x: ], followed by a single
    newline. *)
Theorem displayPoint_one_line (p : Point) :
  exists line : string,
    emits (displayPoint p) tt (("Point(x: " ++ line) ++ nl)
    /\ no_newline ("Point(x: " ++ line) = true.
Proof.
  exists (fmt_f 2 p.(x) ++ ", y: " ++ fmt_f 2 p.(y) ++ ")"). split.
  - eapply emits_text; [apply emits_displayPoint | ].
    now rewrite !app_assoc.
  - rewrite !no_newline_app, !no_newline_fmt_f. reflexivity.
Qed.

(** ** Range of [distanceToOrigin]: overflow and underflow of the squares *)

(** [2^k <= |a|]: the magnitude of [a] reaches the binade of [2^k] (a finite
    [m * 2^e] with [d] significant bits lies in [[2^(d+e-1), 2^(d+e))]). *)
Definition magnitude_ge (k : Z) (a : double) : bool :=
  match a with
  | S754_finite _ m e => k <? Zpos (digits2_pos m) + e
  | S754_infinity _ => true
  | _ => false
  end.

(** [|a| < 2^k]. *)
Definition magnitude_lt (k : Z) (a : double) : bool :=
  match a with
  | S754_finite _ m e => Zpos (digits2_pos m) + e <=? k
  | S754_zero _ => true
  | _ => false
  end.

Section Shift.

Lemma digits2_bounds (m : positive) :
  2 ^ (Zpos (digits2_pos m) - 1) <= Zpos m < 2 ^ Zpos (digits2_pos m).
Proof.
  induction m as [m IH|m IH|]; [| |simpl; lia];
    cbn [digits2_pos]; rewrite Pos2Z.inj_succ;
    replace (Z.succ (Zpos (digits2_pos m)) - 1)
      with (Z.succ (Zpos (digits2_pos m) - 1)) by lia;
    rewrite !Z.pow_succ_r by lia; lia.
Qed.

(** Counting the steps of [iter_pos]. *)
Lemma iter_pos_steps {A : Type} (Q : Z -> A -> Prop) (f : A -> A) :
  (forall k a, 0 <= k -> Q k a -> Q (k + 1) (f a)) ->
  forall n k a, 0 <= k -> Q k a -> Q (k + Zpos n) (iter_pos f n a).
Proof.
  intros Hf. induction n as [n IH|n IH|]; intros k a Hk Ha; cbn [iter_pos].
  - replace (k + Zpos n~1) with (k + 1 + Zpos n + Zpos n) by lia.
    apply IH; [lia | ]. apply IH; [lia | ]. now apply Hf.
  - replace (k + Zpos n~0) with (k + Zpos n + Zpos n) by lia.
    apply IH; [lia | ]. now apply IH.
  - now apply Hf.
Qed.

(** After [k] shifts of [M]: the quotient by [2^k], and the last bit shifted
    out in the rounding bit. *)
Definition shifted (M k : Z) (mrs : shr_record) : Prop :=
  shr_m mrs = M / 2 ^ k /\ (0 < k -> shr_r mrs = Z.testbit M (k - 1)).

Lemma shr_1_shifted (M k : Z) (mrs : shr_record) :
  0 <= M -> 0 <= k -> shifted M k mrs -> shifted M (k + 1) (shr_1 mrs).
Proof.
  intros HM Hk [Hm _].
  assert (H0 : 0 <= shr_m mrs)
    by (rewrite Hm; apply Z.div_pos; [lia | apply Z.pow_pos_nonneg; lia]).
  assert (Hdiv : shr_m (shr_1 mrs) = shr_m mrs / 2
                 /\ shr_r (shr_1 mrs) = Z.odd (shr_m mrs)).
  { destruct mrs as [m r s]. cbn [shr_m] in *.
    destruct m as [|[q|q|]|q]; try lia; cbn [shr_1 shr_m shr_r]; split;
      try reflexivity.
    - now rewrite Pos2Z.inj_xI, Z.add_comm, Z.mul_comm, Z.div_add, Z.add_0_l by lia.
    - now rewrite Pos2Z.inj_xO, Z.mul_comm, Z.div_mul by lia. }
  destruct Hdiv as [Hd Hr]. split.
  - rewrite Hd, Hm, Z.pow_add_r, Z.pow_1_r by lia.
    assert (0 < 2 ^ k) by (apply Z.pow_pos_nonneg; lia).
    now rewrite Z.div_div by lia.
  - intros _. rewrite Hr, Hm. replace (k + 1 - 1) with k by lia.
    rewrite <- Z.bit0_odd, <- Z.shiftr_div_pow2, Z.shiftr_spec by lia.
    reflexivity.
Qed.

Lemma shr_shifted (M e : Z) (l : location) (n : positive) :
  0 <= M ->
  shifted M (Zpos n) (fst (shr (shr_record_of_loc M l) e (Zpos n)))
  /\ snd (shr (shr_record_of_loc M l) e (Zpos n)) = e + Zpos n.
Proof.
  intros HM. cbn [shr fst snd]. split; [ | reflexivity].
  apply (iter_pos_steps (shifted M) shr_1) with (k := 0); try lia.
  - intros k a Hk. now apply shr_1_shifted.
  - split; [ | lia]. rewrite shr_record_of_loc_m. now rewrite Z.div_1_r.
Qed.

End Shift.

Section Overflow.

Lemma round_nearest_even_ge (m : Z) (l : location) :
  m <= round_nearest_even m l.
Proof.
  destruct l as [|[| |]]; simpl; try lia.
  destruct (Z.even m); lia.
Qed.

(** Rounding a significand whose value is above the least binade shifts out
    fewer bits than it has: the result is not zero, and its exponent is at
    least the one the precision asks for. *)
Lemma shr_fexp_large (m e : Z) (l : location) :
  0 < m -> emin prec emax < Zdigits2 m + e ->
  0 < shr_m (fst (shr_fexp prec emax m e l))
  /\ e <= snd (shr_fexp prec emax m e l)
  /\ Zdigits2 m + e - prec <= snd (shr_fexp prec emax m e l).
Proof.
  intros Hm Hd. destruct m as [|mp|mp]; try lia.
  unfold shr_fexp. cbn [Zdigits2] in *.
  pose proof (digits2_bounds mp) as [Hlo _].
  set (d := Zpos (digits2_pos mp)) in *.
  remember (fexp prec emax (d + e) - e) as n eqn:Hn.
  unfold fexp, emin, prec, emax in *.
  destruct n as [|p|p].
  - cbn [shr fst snd]. rewrite shr_record_of_loc_m. lia.
  - destruct (shr_shifted (Zpos mp) e l p ltac:(lia)) as [[Hq _] He].
    rewrite Hq, He. split; [ | lia].
    apply Z.div_str_pos. split; [apply Z.pow_pos_nonneg; lia | ].
    apply Z.le_trans with (2 ^ (d - 1)); [ | exact Hlo].
    apply Z.pow_le_mono_r; lia.
  - cbn [shr fst snd]. rewrite shr_record_of_loc_m. lia.
Qed.

(** A value of [2^emax] or more rounds to an infinity. *)
Lemma binary_round_aux_overflow (s : bool) (M E : Z) (l : location) :
  0 < M -> emax < Zdigits2 M + E ->
  binary_round_aux prec emax s M E l = S754_infinity s.
Proof.
  intros HM HE. unfold binary_round_aux.
  destruct (shr_fexp_large M E l HM) as (H1 & _ & H3);
    [unfold emin, prec, emax in *; lia | ].
  destruct (shr_fexp prec emax M E l) as [mrs1 e1]. cbn [fst snd] in H1, H3.
  pose proof (round_nearest_even_ge (shr_m mrs1) (loc_of_shr_record mrs1)) as Hr.
  set (m1 := round_nearest_even (shr_m mrs1) (loc_of_shr_record mrs1)) in *.
  assert (Hd1 : 0 < Zdigits2 m1) by (destruct m1; simpl; lia).
  destruct (shr_fexp_large m1 e1 loc_Exact ltac:(lia)) as (H4 & H5 & _);
    [unfold emin, prec, emax in *; lia | ].
  destruct (shr_fexp prec emax m1 e1 loc_Exact) as [mrs2 e2].
  cbn [fst snd] in H4, H5.
  destruct (shr_m mrs2) as [|q|q]; try lia.
  destruct (Z.leb_spec e2 (emax - prec)) as [Hle|Hgt]; [ | reflexivity].
  unfold prec, emax in *. lia.
Qed.

Lemma digits2_mul_lower (m : positive) :
  2 * Zpos (digits2_pos m) - 1 <= Zpos (digits2_pos (m * m)).
Proof.
  pose proof (digits2_bounds m) as [Hlo _].
  pose proof (digits2_bounds (m * m)) as [_ Hhi].
  set (d := Zpos (digits2_pos m)) in *.
  set (dM := Zpos (digits2_pos (m * m))) in *.
  assert (Hp : 0 < 2 ^ (d - 1)) by (apply Z.pow_pos_nonneg; lia).
  assert (Hsq : 2 ^ (d - 1 + (d - 1)) <= Zpos (m * m)).
  { rewrite Z.pow_add_r by lia. rewrite Pos2Z.inj_mul. nia. }
  assert (Hlt : 2 ^ (d - 1 + (d - 1)) < 2 ^ dM) by lia.
  apply Z.pow_lt_mono_r_iff in Hlt; lia.
Qed.

Lemma mul_self_overflow (a : double) :
  magnitude_ge 512 a = true -> mul a a = pinf.
Proof.
  destruct a as [s|s| |s m e]; intros H; try discriminate.
  - now destruct s.
  - cbn [magnitude_ge] in H. apply Z.ltb_lt in H.
    unfold mul, SFmul. rewrite xorb_nilpotent.
    apply binary_round_aux_overflow; [lia | ].
    pose proof (digits2_mul_lower m). cbn [Zdigits2].
    unfold emax. lia.
Qed.

End Overflow.

(** X3. The squares are not scaled: a point with a coordinate of magnitude
    [2^512] or more (finite or infinite) and no NaN coordinate has the
    distance [+infinity], because the square of that coordinate overflows,
    even where the true distance is a finite double (as for [(2^512, 0)]). *)
Theorem distanceToOrigin_overflow (a b : double) :
  magnitude_ge 512 a = true -> is_nan b = false ->
  distanceToOrigin (createPoint a b) = pinf
  /\ distanceToOrigin (createPoint b a) = pinf.
Proof.
  intros Ha Hb. rewrite !distanceToOrigin_unfold. cbn [x y createPoint].
  rewrite (mul_self_overflow a Ha).
  rewrite add_pinf_l, add_pinf_r by now apply mul_self_signed.
  split; reflexivity.
Qed.

Lemma distanceToOrigin_overflow_witness :
  is_double (of_dyadic 1 512) = true
  /\ is_finite (of_dyadic 1 512) = true
  /\ distanceToOrigin (createPoint (of_dyadic 1 512) pzero) = pinf
  /\ distanceToOrigin (createPoint pzero (of_dyadic 1 512)) = pinf.
Proof.
  split; [reflexivity | split; [reflexivity | ]].
  apply (distanceToOrigin_overflow (of_dyadic 1 512) pzero); reflexivity.
Defined.

Section Underflow.

(** A value below [2^(emin-1)], half the least positive double, rounds to
    zero. *)
Lemma binary_round_aux_underflow (s : bool) (M : positive) (E : Z) :
  Zpos (digits2_pos M) + E < emin prec emax ->
  binary_round_aux prec emax s (Zpos M) E loc_Exact = S754_zero s.
Proof.
  intros HE. unfold binary_round_aux, shr_fexp at 1. cbn [Zdigits2].
  pose proof (digits2_bounds M) as [_ Hhi].
  set (d := Zpos (digits2_pos M)) in *.
  replace (fexp prec emax (d + E) - E) with (emin prec emax - E)
    by (unfold fexp, emin, prec, emax in *; lia).
  destruct (emin prec emax - E) as [|p|p] eqn:Hp; try lia.
  destruct (shr_shifted (Zpos M) E loc_Exact p ltac:(lia)) as [[Hq Hr] He].
  destruct (shr (shr_record_of_loc (Zpos M) loc_Exact) E (Zpos p))
    as [[m1 r1 s1] e1].
  cbn [fst snd shr_m shr_r] in Hq, Hr, He.
  assert (Hpow : 2 ^ d <= 2 ^ (Zpos p - 1)) by (apply Z.pow_le_mono_r; lia).
  assert (Hm1 : m1 = 0).
  { rewrite Hq. apply Z.div_small. split; [lia | ].
    apply Z.lt_le_trans with (2 ^ (Zpos p - 1)); [lia | ].
    apply Z.pow_le_mono_r; lia. }
  assert (Hr1 : r1 = false).
  { rewrite Hr by lia. apply Z.bits_above_log2; [lia | ].
    apply Z.log2_lt_pow2; lia. }
  assert (He1 : e1 = emin prec emax) by lia.
  clear Hq Hr He. subst m1 r1 e1. now destruct s1.
Qed.

Lemma digits2_mul_upper (m : positive) :
  Zpos (digits2_pos (m * m)) <= 2 * Zpos (digits2_pos m).
Proof.
  pose proof (digits2_bounds m) as [_ Hhi].
  pose proof (digits2_bounds (m * m)) as [Hlo _].
  set (d := Zpos (digits2_pos m)) in *.
  set (dM := Zpos (digits2_pos (m * m))) in *.
  assert (Hsq : Zpos (m * m) < 2 ^ (d + d)).
  { rewrite Z.pow_add_r by lia. rewrite Pos2Z.inj_mul. nia. }
  assert (Hlt : 2 ^ (dM - 1) < 2 ^ (d + d)) by lia.
  apply Z.pow_lt_mono_r_iff in Hlt; lia.
Qed.

Lemma mul_self_underflow (a : double) :
  magnitude_lt (-538) a = true -> mul a a = pzero.
Proof.
  destruct a as [s|s| |s m e]; intros H; try discriminate.
  - now destruct s.
  - cbn [magnitude_lt] in H. apply Z.leb_le in H.
    unfold mul, SFmul. rewrite xorb_nilpotent.
    apply binary_round_aux_underflow.
    pose proof (digits2_mul_upper m). unfold emin, prec, emax. lia.
Qed.

End Underflow.

(** X4. Nor are tiny coordinates scaled: when both coordinates have a magnitude
    below [2^-538] (zero included), both squares round to zero and the
    distance is [+0.0], although the point need not be the origin. *)
Theorem distanceToOrigin_underflow (a b : double) :
  magnitude_lt (-538) a = true -> magnitude_lt (-538) b = true ->
  distanceToOrigin (createPoint a b) = pzero.
Proof.
  intros Ha Hb. rewrite distanceToOrigin_unfold. cbn [x y createPoint].
  now rewrite (mul_self_underflow a Ha), (mul_self_underflow b Hb).
Qed.

Lemma distanceToOrigin_underflow_witness :
  is_double (of_dyadic 1 (-600)) = true
  /\ of_dyadic 1 (-600) <> pzero
  /\ distanceToOrigin (createPoint (of_dyadic 1 (-600)) (neg (of_dyadic 3 (-700))))
     = pzero.
Proof.
  split; [reflexivity | split; [discriminate | ]].
  apply (distanceToOrigin_underflow (of_dyadic 1 (-600)) (neg (of_dyadic 3 (-700))));
    reflexivity.
Defined.

(** ** When a sum of points has a NaN coordinate *)

Definition opposite_infinities (a b : double) : bool :=
  is_inf a && is_inf b && xorb (signbit a) (signbit b).

Section AddNaN.

Lemma binary_normalize_not_nan (z e : Z) :
  is_nan (binary_normalize prec emax z e false) = false.
Proof.
  destruct z as [|q|q]; [reflexivity | | ];
    unfold binary_normalize, binary_round;
    destruct (shl_align q e _) as [mz ez];
    apply binary_round_aux_signed; lia.
Qed.

Lemma add_is_nan (a b : double) :
  is_nan (add a b) = is_nan a || is_nan b || opposite_infinities a b.
Proof.
  destruct a as [[|]|[|]| |sa ma ea], b as [[|]|[|]| |sb mb eb];
    try reflexivity.
  unfold add, SFadd. rewrite binary_normalize_not_nan. reflexivity.
Qed.

End AddNaN.

(** X8. A coordinate of [addPoints p1 p2] is a NaN exactly when one of the two
    added coordinates is a NaN or they are infinities of opposite signs; in
    particular the sum of two points with finite coordinates has no NaN
    coordinate (it may have infinite ones). *)
Theorem addPoints_nan (p1 p2 : Point) :
  is_nan (addPoints p1 p2).(x)
  = is_nan p1.(x) || is_nan p2.(x) || opposite_infinities p1.(x) p2.(x)
  /\ is_nan (addPoints p1 p2).(y)
     = is_nan p1.(y) || is_nan p2.(y) || opposite_infinities p1.(y) p2.(y).
Proof. split; apply add_is_nan. Qed.

(** * The sign bit of a NaN

    The operations once more, over doubles whose NaNs carry their sign bit.
    On numbers nothing changes: every operator returns what it returns
    above.  On NaNs the operators behave as the processors the program is
    built for do (SSE2 on x86-64, AArch64):
    - unary minus flips the sign bit of a NaN as of any double;
    - an arithmetic operator with a NaN operand returns that operand, with
      its sign (the first one as the expression is written when both are
      NaNs);
    - an invalid operation (such as [inf + -inf]) creates the default NaN of
      the architecture, whose sign bit is set on x86-64 and clear on
      AArch64.
    [printf] prints a NaN as [nan], with a minus sign when its sign bit is
    set, as glibc does. *)

Module Bits.

Inductive double : Type :=
| B754_zero (s : bool)
| B754_infinity (s : bool)
| B754_nan (s : bool)
| B754_finite (s : bool) (m : positive) (e : Z).

(** The datum of a double: the sign of a NaN forgotten. *)
Definition erase (a : double) : Double.double :=
  match a with
  | B754_zero s => S754_zero s
  | B754_infinity s => S754_infinity s
  | B754_nan _ => S754_nan
  | B754_finite s m e => S754_finite s m e
  end.

(** A datum as a double, a NaN with the sign bit [d]. *)
Definition lift (d : bool) (a : Double.double) : double :=
  match a with
  | S754_zero s => B754_zero s
  | S754_infinity s => B754_infinity s
  | S754_nan => B754_nan d
  | S754_finite s m e => B754_finite s m e
  end.

Record arch : Type := { default_nan_sign : bool }.

Definition x86_64 : arch := {| default_nan_sign := true |}.

Definition is_nan (a : double) : bool :=
  match a with B754_nan _ => true | _ => false end.

Definition is_finite (a : double) : bool :=
  match a with B754_zero _ | B754_finite _ _ _ => true | _ => false end.

Definition signbit (a : double) : bool :=
  match a with
  | B754_zero s | B754_infinity s | B754_nan s | B754_finite s _ _ => s
  end.

Definition binop (A : arch) (f : Double.double -> Double.double -> Double.double)
    (a b : double) : double :=
  match a, b with
  | B754_nan _, _ => a
  | _, B754_nan _ => b
  | _, _ => lift (default_nan_sign A) (f (erase a) (erase b))
  end.

Definition add (A : arch) : double -> double -> double := binop A Double.add.
Definition sub (A : arch) : double -> double -> double := binop A Double.sub.
Definition mul (A : arch) : double -> double -> double := binop A Double.mul.

Definition sqrt (A : arch) (a : double) : double :=
  match a with
  | B754_nan _ => a
  | _ => lift (default_nan_sign A) (Double.sqrt (erase a))
  end.

Definition neg (a : double) : double :=
  match a with
  | B754_zero s => B754_zero (negb s)
  | B754_infinity s => B754_infinity (negb s)
  | B754_nan s => B754_nan (negb s)
  | B754_finite s m e => B754_finite (negb s) m e
  end.

Definition abs (a : double) : double :=
  match a with
  | B754_zero _ => B754_zero false
  | B754_infinity _ => B754_infinity false
  | B754_nan _ => B754_nan false
  | B754_finite _ m e => B754_finite false m e
  end.

Definition of_int (z : Z) : double := lift false (Double.of_int z).

Definition of_dyadic (m e : Z) : double := lift false (Double.of_dyadic m e).

(** *** geometry.h, main_geometry.c *)

Record Point : Type := mkPoint { x : double; y : double }.

Definition createPoint (x0 y0 : double) : Point :=
  {| x := x0; y := y0 |}.

Definition distanceToOrigin (A : arch) (p : Point) : double :=
  let deltaX := sub A p.(x) (of_int ORIGIN_X) in
  let deltaY := sub A p.(y) (of_int ORIGIN_Y) in
  sqrt A (add A (mul A deltaX deltaX) (mul A deltaY deltaY)).

Definition addPoints (A : arch) (p1 p2 : Point) : Point :=
  {| x := add A p1.(x) p2.(x); y := add A p1.(y) p2.(y) |}.

(** The conversion [%.Pf]: a NaN with its sign, anything else as above. *)
Definition fmt_f (P : nat) (a : double) : string :=
  match a with
  | B754_nan s => sign_text s ++ "nan"
  | _ => fmt_f P (erase a)
  end.

Fixpoint format (fmt : string) (args : list double) : string :=
  match fmt with
  | EmptyString => EmptyString
  | String c1 (String c2 (String c3 (String c4 rest)) as tl) =>
      if Ascii.eqb c1 "%" && Ascii.eqb c2 "." && is_digit c3 && Ascii.eqb c4 "f"
      then match args with
           | a :: args' => fmt_f (nat_of_ascii c3 - 48) a ++ format rest args'
           | [] => format rest []
           end
      else String c1 (format tl args)
  | String c1 tl => String c1 (format tl args)
  end.

Definition printf (fmt : string) (args : list double) : IO Z :=
  fun out =>
    let text := format fmt args in
    (Z.of_nat (String.length text), out ++ text).

Definition displayPoint (p : Point) : IO unit :=
  printf ("Point(x: %.2f, y: %.2f)" ++ nl) [p.(x); p.(y)] ;;
  ret tt.

End Bits.

(** The point of the data of a point. *)
Definition erase_point (p : Bits.Point) : Point :=
  createPoint (Bits.erase (Bits.x p)) (Bits.erase (Bits.y p)).

(** [n] is the integer nearest to [|a| * 10^P], the even one of the two
    when [|a| * 10^P] lies halfway between two integers. *)
Definition rounded_scaled (P : nat) (a : double) (n : Z) : Prop :=
  nearest_scaled P a n
  /\ match a with
     | S754_finite _ m e =>
         2 * Z.abs (Zpos m * 10 ^ Z.of_nat P * 2 ^ Z.max e 0
                    - n * 2 ^ Z.max (- e) 0)
         = 2 ^ Z.max (- e) 0 ->
         Z.even n = true
     | _ => True
     end.

(** ** The refinement: erasing the sign of NaNs *)

Section Erase.

Variable A : Bits.arch.

Lemma erase_lift (d : bool) (a : double) : Bits.erase (Bits.lift d a) = a.
Proof. now destruct a. Qed.





Lemma erase_binop (f : double -> double -> double) (a b : Bits.double) :
  (forall v, f nan v = nan) -> (forall u, f u nan = nan) ->
  Bits.erase (Bits.binop A f a b) = f (Bits.erase a) (Bits.erase b).
Proof.
  intros Hl Hr.
  destruct a, b; cbn [Bits.binop Bits.erase];
    rewrite ?erase_lift; try reflexivity;
    first [symmetry; apply Hl | symmetry; apply Hr].
Qed.

Lemma erase_add (a b : Bits.double) :
  Bits.erase (Bits.add A a b) = add (Bits.erase a) (Bits.erase b).
Proof. apply erase_binop; [reflexivity | apply add_nan_r]. Qed.





Lemma erase_addPoints (p1 p2 : Bits.Point) :
  erase_point (Bits.addPoints A p1 p2)
  = addPoints (erase_point p1) (erase_point p2).
Proof.
  unfold Bits.addPoints, addPoints, erase_point, createPoint. cbn.
  now rewrite !erase_add.
Qed.




End Erase.

(** ** Symmetries of the distance, bit for bit *)






(** ** The text of a point *)

Section Ties.

Lemma scaled_round_rounded (P : nat) (s : bool) (m : positive) (e : Z) :
  rounded_scaled P (S754_finite s m e) (scaled_round P m e).
Proof.
  split; [apply scaled_round_nearest | ].
  unfold scaled_round.
  set (num := Zpos m * 10 ^ Z.of_nat P).
  destruct e as [|k|k].
  - change (Z.max 0 0) with 0. change (Z.max (- 0) 0) with 0.
    rewrite Z.pow_0_r, !Z.mul_1_r, Z.sub_diag. simpl. lia.
  - rewrite (Z.max_l (Zpos k) 0), (Z.max_r (- Zpos k) 0) by lia.
    rewrite Z.pow_0_r, Z.mul_1_r, Z.sub_diag. simpl. lia.
  - rewrite (Z.max_r (Zneg k) 0), (Z.max_l (- Zneg k) 0) by lia.
    change (- Zneg k) with (Zpos k). rewrite Z.pow_0_r.
    assert (Hd : 0 < 2 ^ Zpos k) by (apply Z.pow_pos_nonneg; lia).
    set (d := 2 ^ Zpos k) in *.
    pose proof (Z.div_mod num d ltac:(lia)) as Hdm.
    pose proof (Z.mod_pos_bound num d Hd) as Hr.
    set (q := num / d) in *. set (r := num mod d) in *.
    destruct (Z.compare_spec (2 * r) d) as [Hc|Hc|Hc].
    + destruct (Z.even q) eqn:Hq; intros _; [exact Hq | ].
      rewrite Z.even_add, Hq. reflexivity.
    + intros H. lia.
    + intros H. lia.
Qed.

(** The rounding is determined: two integers rounded from the same value
    are equal. *)
Lemma rounded_scaled_unique (P : nat) (a : double) (n n' : Z) :
  rounded_scaled P a n -> rounded_scaled P a n' -> n = n'.
Proof.
  unfold rounded_scaled, nearest_scaled.
  destruct a as [s|s| |s m e]; intros [H1 T1] [H2 T2];
    try contradiction; [lia | ].
  destruct H1 as [_ H1], H2 as [_ H2].
  assert (HD : 0 < 2 ^ Z.max (- e) 0) by (apply Z.pow_pos_nonneg; lia).
  set (D := 2 ^ Z.max (- e) 0) in *.
  set (v := Zpos m * 10 ^ Z.of_nat P * 2 ^ Z.max e 0) in *.
  destruct (Z.lt_trichotomy n n') as [Hlt|[Heq|Hgt]]; [ | exact Heq | ].
  - assert (Hd : (n' - n) * D <= D) by lia.
    assert (n' = n + 1) by nia. subst n'.
    assert (Z.even n = true) by (apply T1; lia).
    assert (Z.even (n + 1) = true) by (apply T2; lia).
    rewrite Z.even_add in *. destruct (Z.even n); discriminate.
  - assert (Hd : (n - n') * D <= D) by lia.
    assert (n = n' + 1) by nia. subst n.
    assert (Z.even n' = true) by (apply T2; lia).
    assert (Z.even (n' + 1) = true) by (apply T1; lia).
    rewrite Z.even_add in *. destruct (Z.even n'); discriminate.
Qed.

Lemma bits_fmt_f_2_finite (a : Bits.double) :
  Bits.is_finite a = true ->
  exists n : Z,
    rounded_scaled 2 (Bits.erase a) n
    /\ Bits.fmt_f 2 a
       = sign_text (Bits.signbit a) ++ decimal (n / 100) ++ "."
         ++ String (digit (n mod 100 / 10)) (String (digit (n mod 10)) "").
Proof.
  destruct a as [s|s|s|s m e]; intros H; try discriminate.
  - exists 0. split; [split; [reflexivity | exact I] | ].
    cbn [Bits.fmt_f Bits.erase fmt_f Bits.signbit]. now rewrite fixed_2.
  - exists (scaled_round 2 m e). split; [apply scaled_round_rounded | ].
    cbn [Bits.fmt_f Bits.erase fmt_f Bits.signbit]. now rewrite fixed_2.
Qed.

Lemma emits_bits_displayPoint (p : Bits.Point) :
  emits (Bits.displayPoint p) tt
        ("Point(x: " ++ Bits.fmt_f 2 (Bits.x p) ++ ", y: "
         ++ Bits.fmt_f 2 (Bits.y p) ++ ")" ++ nl).
Proof. intros out. reflexivity. Qed.

End Ties.

(** C2 (amended). [displayPoint p] appends to the output the text
    [Point(x: <x>, y: <y>)] followed by one newline character, where [<x>]
    and [<y>] are the two coordinates printed by [%.2f]:
    - a finite coordinate as an optional minus sign, its integer part, a
      point and exactly two digits, the value rounded to the nearest
      hundredth, to the even one on a tie;
    - an infinity as [inf] or [-inf];
    - a NaN as [nan], or [-nan] when its sign bit is set.
    For [(3.0, 4.0)] the text is [Point(x: 3.00, y: 4.00)] and a newline,
    for [(-1.0, 2.5)] it is [Point(x: -1.00, y: 2.50)] and a newline. *)
Theorem displayPoint_text_bits :
  (forall p : Bits.Point,
      emits (Bits.displayPoint p) tt
            ("Point(x: " ++ Bits.fmt_f 2 (Bits.x p) ++ ", y: "
             ++ Bits.fmt_f 2 (Bits.y p) ++ ")" ++ nl))
  /\ (forall a : Bits.double,
         Bits.is_finite a = true ->
         exists n : Z,
           rounded_scaled 2 (Bits.erase a) n
           /\ Bits.fmt_f 2 a
              = sign_text (Bits.signbit a) ++ decimal (n / 100) ++ "."
                ++ String (digit (n mod 100 / 10)) (String (digit (n mod 10)) ""))
  /\ (forall s : bool,
         Bits.fmt_f 2 (Bits.B754_infinity s) = (if s then "-inf" else "inf")
         /\ Bits.fmt_f 2 (Bits.B754_nan s) = (if s then "-nan" else "nan"))
  /\ emits (Bits.displayPoint
              (Bits.createPoint (Bits.of_dyadic 3 0) (Bits.of_dyadic 4 0))) tt
           ("Point(x: 3.00, y: 4.00)" ++ nl)
  /\ emits (Bits.displayPoint
              (Bits.createPoint (Bits.neg (Bits.of_dyadic 1 0))
                                (Bits.of_dyadic 5 (-1)))) tt
           ("Point(x: -1.00, y: 2.50)" ++ nl).
Proof.
  split; [exact emits_bits_displayPoint | ].
  split; [exact bits_fmt_f_2_finite | ].
  split; [intros [|]; split; reflexivity | ].
  split; (eapply emits_text;
          [apply emits_bits_displayPoint | vm_compute; reflexivity]).
Qed.

Lemma displayPoint_text_bits_witness :
  exists n : Z,
    rounded_scaled 2 (Bits.erase (Bits.of_dyadic 1 (-3))) n
    /\ Bits.fmt_f 2 (Bits.of_dyadic 1 (-3))
       = sign_text (Bits.signbit (Bits.of_dyadic 1 (-3))) ++ decimal (n / 100)
         ++ "." ++ String (digit (n mod 100 / 10)) (String (digit (n mod 10)) "").
Proof.
  destruct displayPoint_text_bits as (_ & Hfin & _).
  apply Hfin. reflexivity.
Defined.

(** C2 as stated fails.  What [displayPoint] writes for [(3.0, 4.0)] is not
    the bare text [Point(x: 3.00, y: 4.00)]: a newline follows it.  And a
    coordinate that is a NaN or an infinity is not printed with two
    decimals: the sum of [(inf, 3)] and [(-inf, inf)] is printed as
    [Point(x: -nan, y: inf)] on x86-64. *)
Lemma displayPoint_text_bits_counterexample :
  snd (Bits.displayPoint
         (Bits.createPoint (Bits.of_dyadic 3 0) (Bits.of_dyadic 4 0)) "")
  <> "Point(x: 3.00, y: 4.00)"
  /\ snd (Bits.displayPoint
            (Bits.addPoints Bits.x86_64
               (Bits.createPoint (Bits.B754_infinity false) (Bits.of_dyadic 3 0))
               (Bits.createPoint (Bits.B754_infinity true) (Bits.B754_infinity false)))
            "")
     = "Point(x: -nan, y: inf)" ++ nl.
Proof. split; [vm_compute; discriminate | vm_compute; reflexivity]. Qed.
